(** * DiscTools: hierarchy and target helpers of [disctools/context.py]

    A shallow embedding of [_maybe_sequence], [TargetContext] and
    [EmbedingContext].  Python list objects live in a store addressed by
    references, so that "the same list" and "a new list" are different
    things; the methods are written in a state-and-exception monad over
    that store, the context object and the coroutine bookkeeping of the
    event loop. *)

From Stdlib Require Import ZArith.
From stdpp Require Import base option list strings pretty gmap.

(** ** Platform objects *)

(** Modelled from the spec: the actor types of the platform library
    ([discord.abc.User] and its implementations), which are not part of this
    repository.  An actor is an identity; a [GuildMember] carries in addition
    the rank of its top role.  A [GenericActor] has no [top_role] attribute;
    [cls] is the qualified name of its class, which [type(...)] shows. *)
Inductive Actor : Type :=
  | GenericActor (cls : string) (id : Z)
  | GuildMember (id : Z) (rank : Z).

Definition actor_id (a : Actor) : Z :=
  match a with
  | GenericActor _ i => i
  | GuildMember i _ => i
  end.

(** Modelled from the spec: the platform's actor equality ([==]), which is
    by identity number, whatever the kind of the two actors. *)
Definition actor_eqb (a b : Actor) : bool := (actor_id a =? actor_id b)%Z.

(** [a.top_role]: [None] stands for the [AttributeError] of an actor that has
    no such attribute. *)
Definition top_role (a : Actor) : option Z :=
  match a with
  | GenericActor _ _ => None
  | GuildMember _ r => Some r
  end.

(** [isinstance(a, discord.Member)] *)
Definition isinstance_Member (a : Actor) : bool :=
  match a with
  | GenericActor _ _ => false
  | GuildMember _ _ => true
  end.

(** [type(a)] as an f-string prints it. *)
Definition type_repr (a : Actor) : string :=
  match a with
  | GenericActor cls _ => "<class '" +:+ cls +:+ "'>"
  | GuildMember _ _ => "<class 'discord.member.Member'>"
  end.

(** Modelled from the spec: a guild exposes its owner actor. *)
Record Guild : Type := { owner : Actor }.

(** [x in seq] for a Python sequence of actors. *)
Definition contains (seq : list Actor) (x : Actor) : bool :=
  existsb (fun e => actor_eqb e x) seq.

(** ** Values, store and world *)

(** References to Python list objects. *)
Abbreviation loc := positive.

(** [Union[T, Sequence[T]]]: a lone actor, or a reference to a sequence. *)
Inductive Targets : Type :=
  | Lone (a : Actor)
  | Sequence (s : loc).

(** [*args, **kwargs] of a send. *)
Record Payload : Type := { args : list string; kwargs : list (string * string) }.

(** A coroutine object, as a call of an [async def] function returns it:
    the body has not run yet. *)
Inductive Coroutine : Type :=
  | DirectMessage (target : Actor) (payload : Payload)
  | ChannelMessage (payload : Payload).

(** The message a completed send returns. *)
Inductive Message : Type := Sent (c : Coroutine).

(** The attributes of a context object that the methods read or write. *)
Record Context : Type := {
  qualname : string;        (* self.__class__.__qualname__ *)
  guild : option Guild;     (* self.guild *)
  author : Actor;           (* self.author *)
  me : Actor;               (* self.me *)
  _target : loc             (* self._target *)
}.

Record World : Type := {
  heap : gmap loc (list Actor);  (* the list objects *)
  self : Context;
  created : list Coroutine;      (* coroutine objects created, oldest first *)
  scheduled : list Coroutine     (* coroutines handed to the event loop (awaited
                                    or wrapped in a task), oldest first *)
}.

Definition set_heap (h : gmap loc (list Actor)) (w : World) : World :=
  {| heap := h; self := self w; created := created w; scheduled := scheduled w |}.

Definition set_target (s : loc) (w : World) : World :=
  {| heap := heap w;
     self := {| qualname := qualname (self w); guild := guild (self w);
                author := author (self w); me := me (self w); _target := s |};
     created := created w; scheduled := scheduled w |}.

Definition add_created (c : Coroutine) (w : World) : World :=
  {| heap := heap w; self := self w;
     created := created w ++ [c]; scheduled := scheduled w |}.

Definition add_scheduled (c : Coroutine) (w : World) : World :=
  {| heap := heap w; self := self w;
     created := created w; scheduled := scheduled w ++ [c] |}.

(** ** The monad *)

Inductive Exn : Type :=
  | ValueError (msg : string)
  | TypeError (msg : string)
  | PlatformError (name : string)  (* what the platform's send raises *)
  | DanglingReference.   (* no Python program reaches this *)

Inductive Outcome (A : Type) : Type :=
  | Return (a : A)
  | Raise (e : Exn).
Arguments Return {A} a.
Arguments Raise {A} e.

Definition M (A : Type) : Type := World -> Outcome A * World.

Definition ret {A} (a : A) : M A := fun w => (Return a, w).

Definition raise {A} (e : Exn) : M A := fun w => (Raise e, w).

Definition bind {A B} (m : M A) (k : A -> M B) : M B :=
  fun w =>
    match m w with
    | (Return a, w') => k a w'
    | (Raise e, w') => (Raise e, w')
    end.

Notation "x <- m ;; k" := (bind m (fun x => k))
  (at level 100, m at next level, right associativity).

Definition lift {A} (o : Outcome A) : M A := fun w => (o, w).

Definition get_self : M Context := fun w => (Return (self w), w).

(** A list display [[x, ...]] creates a new list object. *)
Definition alloc (l : list Actor) : M loc :=
  fun w => let s := fresh (dom (heap w)) in (Return s, set_heap (<[s := l]> (heap w)) w).

(** Reading the elements of a list object. *)
Definition deref (s : loc) : M (list Actor) :=
  fun w =>
    match heap w !! s with
    | Some l => (Return l, w)
    | None => (Raise DanglingReference, w)
    end.

(** Modelled from the spec: the platform's asynchronous "send content to
    actor" primitive, [target.send(...)].  It is a coroutine function:
    calling it creates a coroutine object and sends nothing yet. *)
Definition send (target : Actor) (p : Payload) : M Coroutine :=
  fun w => let c := DirectMessage target p in (Return c, add_created c w).

(** Modelled from the spec: the platform's asynchronous "send content to
    the current channel" primitive, [self.send(...)], a coroutine function
    as well. *)
Definition ctx_send (p : Payload) : M Coroutine :=
  fun w => let c := ChannelMessage p in (Return c, add_created c w).

(** [await c] hands the coroutine to the event loop and runs it to
    completion: the result is what the delivery channel answers, the sent
    message or the error it raises.  [deliver] is that answer, which the
    platform and the network decide. *)
Definition await (deliver : Coroutine -> Outcome Message) (c : Coroutine)
  : M Message :=
  fun w => (deliver c, add_scheduled c w).

(** ** The source *)

(** [_maybe_sequence] *)
Definition _maybe_sequence (doubtful : Targets) : M loc :=
  match doubtful with
  | Lone a => alloc [a]
  | Sequence s => ret s
  end.

(** [TargetContext.targets] (getter) *)
Definition targets : M loc :=
  slf <- get_self ;; ret (_target slf).

(** [TargetContext.targets] (setter) *)
Definition set_targets (user : Targets) : M unit :=
  s <- _maybe_sequence user ;;
  fun w => (Return tt, set_target s w).

(** [TargetContext.__init__], after the framework's own initialisation;
    [mentions] is the list [self.message.mentions]. *)
Definition init (mentions : loc) : M unit :=
  set_targets (Sequence mentions).

(** [TargetContext.is_author_target] *)
Definition is_author_target : M bool :=
  slf <- get_self ;;
  t <- targets ;;
  l <- deref t ;;
  ret (contains l (author slf)).

(** [TargetContext.is_user_target] *)
Definition is_user_target (user : Actor) : M bool :=
  t <- targets ;;
  l <- deref t ;;
  ret (contains l user).

(** The body of the [for member in users] loop of [_above_check], with its
    [else] clause.  It touches no state. *)
Fixpoint above_loop (g : Guild) (user : Actor) (users : list Actor)
  : Outcome (bool * option Actor) :=
  match users with
  | [] => Return (true, None)
  | member :: rest =>
      if actor_eqb member (owner g) then Return (false, Some member)
      else
        match top_role member, top_role user with
        | Some rm, Some ru =>
            if (rm >? ru)%Z then Return (false, Some member)
            else above_loop g user rest
        | _, _ =>
            Raise (TypeError
              ("Expected all users to be of type discord.Member instead encountered "
               +:+ type_repr member))
        end
  end.

(** [TargetContext._above_check] *)
Definition _above_check (user : Actor) (users : option Targets)
  : M (bool * option Actor) :=
  slf <- get_self ;;
  match guild slf with
  | None =>
      raise (ValueError ("Expected discord.Guild instance at " +:+ qualname slf
                         +:+ ".guild instead got None"))
  | Some g =>
      tgts <- targets ;;
      if actor_eqb user (owner g) then ret (true, None)
      else
        users' <- match users with
                  | None => ret tgts
                  | Some u => _maybe_sequence u
                  end ;;
        members <- deref users' ;;
        lift (above_loop g user members)
  end.

(** [TargetContext.is_author_above] *)
Definition is_author_above (users : option Targets) : M (bool * option Actor) :=
  slf <- get_self ;;
  if isinstance_Member (author slf) then _above_check (author slf) users
  else raise (TypeError ("Message author is of type " +:+ type_repr (author slf)
                         +:+ ", expected discord.Member instance.")).

(** [TargetContext.is_bot_above] *)
Definition is_bot_above (users : option Targets) : M (bool * option Actor) :=
  slf <- get_self ;;
  if isinstance_Member (me slf) then _above_check (me slf) users
  else raise (TypeError (qualname slf +:+ ".me is of type " +:+ type_repr (me slf)
                         +:+ ", expected discord.Member instance.")).

(** The [for target in users] loop of [whisper]: each [target.send(...)]
    is called and its coroutine object dropped. *)
Fixpoint whisper_loop (users : list Actor) (p : Payload) : M unit :=
  match users with
  | [] => ret tt
  | target :: rest => _ <- send target p ;; whisper_loop rest p
  end.

(** [TargetContext.whisper] *)
Definition whisper (users : option Targets) (p : Payload) : M unit :=
  users1 <- match users with
            | None => t <- targets ;; ret (Sequence t)
            | Some u => ret u
            end ;;
  users2 <- _maybe_sequence users1 ;;
  l <- deref users2 ;;
  whisper_loop l p.

(** [EmbedingContext.send_embed].  [Embed] is the platform's constructor
    [discord.Embed], called with [*args, **kwargs], which returns the embed or raises (a
    positional argument is a [TypeError]); it is called first, then
    [self.send(embed=...)], and the coroutine is awaited. *)
Definition send_embed (Embed : Payload -> Outcome Payload)
    (deliver : Coroutine -> Outcome Message) (p : Payload) : M Message :=
  embed <- lift (Embed p) ;;
  c <- ctx_send embed ;;
  await deliver c.

(** ** Vocabulary of the specification *)

(** The candidate sequence that the [users] argument denotes in [w]:
    the current TargetSet when omitted, a lone actor as a one-element
    sequence, the elements of a sequence otherwise. *)
Definition candidates (w : World) (users : option Targets) : option (list Actor) :=
  match users with
  | None => heap w !! _target (self w)
  | Some (Lone a) => Some [a]
  | Some (Sequence s) => heap w !! s
  end.

(** [c]'s top role rank is strictly greater than [p]'s. *)
Definition outranks (c p : Actor) : bool :=
  match top_role c, top_role p with
  | Some rc, Some rp => (rc >? rp)%Z
  | _, _ => false
  end.

(** A candidate blocks when it equals the guild owner or outranks the
    privileged actor. *)
Definition blocks (g : Guild) (p c : Actor) : bool :=
  actor_eqb c (owner g) || outranks c p.

(** A guild member that does not block. *)
Definition passes (g : Guild) (p c : Actor) : bool :=
  isinstance_Member c && negb (blocks g p c).

(** The stored TargetSet: the elements of the list that [self._target]
    refers to. *)
Definition stored_targets (w : World) : option (list Actor) :=
  heap w !! _target (self w).

(** The context object and the lists that exist are as they were (a
    temporary list may have been created), and so is the stored
    TargetSet. *)
Definition targets_preserved (w w' : World) : Prop :=
  self w' = self w
  ∧ heap w ⊆ heap w'
  ∧ (is_Some (stored_targets w) → stored_targets w' = stored_targets w).

(** What a read-only operation may do to the world: nothing to the context
    object, the existing lists and the TargetSet, and nothing to the
    coroutines. *)
Definition preserved (w w' : World) : Prop :=
  targets_preserved w w'
  ∧ created w' = created w ∧ scheduled w' = scheduled w.

(** [self._target] refers to a list that exists.  [__init__] establishes
    this when the mentions exist; assignment keeps it for a sequence that
    exists and for every lone actor; the other operations keep it. *)
Definition wf (w : World) : Prop := is_Some (stored_targets w).

Definition raises_TypeError {A} (o : Outcome A) : bool :=
  match o with
  | Raise (TypeError _) => true
  | _ => false
  end.

Definition raises_ValueError {A} (o : Outcome A) : bool :=
  match o with
  | Raise (ValueError _) => true
  | _ => false
  end.

(** ** Concrete worlds used in the examples *)

Module Examples.

Definition the_owner : Actor := GuildMember 1 0.
Definition moderator : Actor := GuildMember 2 5.
Definition admin : Actor := GuildMember 3 9.
Definition newcomer : Actor := GuildMember 4 3.
Definition stranger : Actor := GenericActor "discord.user.User" 5.
Definition owner_as_user : Actor := GenericActor "discord.user.User" 1.

Definition the_guild : Guild := {| owner := the_owner |}.

Definition hello : Payload := {| args := ["hello"]; kwargs := [] |}.

(** A guild context whose author is [moderator] and whose targets are
    the list object at reference 1. *)
Definition guild_world (tgts : list Actor) : World :=
  {| heap := {[ 1%positive := tgts ]};
     self := {| qualname := "TargetContext"; guild := Some the_guild;
                author := moderator; me := moderator; _target := 1%positive |};
     created := []; scheduled := [] |}.

(** A direct-message context: no guild, author and bot are plain users. *)
Definition dm_world : World :=
  {| heap := {[ 1%positive := [] ]};
     self := {| qualname := "TargetContext"; guild := None;
                author := stranger;
                me := GenericActor "discord.user.ClientUser" 7;
                _target := 1%positive |};
     created := []; scheduled := [] |}.

(** No guild, but author and bot are members all the same. *)
Definition guildless_world : World :=
  {| heap := {[ 1%positive := [] ]};
     self := {| qualname := "TargetContext"; guild := None;
                author := moderator; me := moderator; _target := 1%positive |};
     created := []; scheduled := [] |}.

(** The scenario "P (rank 5), candidates M1 (rank 3), M2 (rank 9)". *)
Definition second_blocks : World := guild_world [newcomer; admin].

Definition owner_in_the_middle : World :=
  guild_world [newcomer; the_owner; admin].

Definition malformed_before_owner : World :=
  guild_world [newcomer; stranger; the_owner].

Definition blocker_before_malformed : World :=
  guild_world [admin; stranger; the_owner].

Definition no_targets : World := guild_world [].

Definition author_among_targets : World := guild_world [admin; moderator].

Definition not_a_member_msg : string :=
  "Expected all users to be of type discord.Member instead encountered <class 'discord.user.User'>".

Definition no_guild_msg : string :=
  "Expected discord.Guild instance at TargetContext.guild instead got None".

Definition peer : Actor := GuildMember 6 5.

(** Two list objects holding the same candidates in different orders; the
    author is [moderator], the bot is [admin]. *)
Definition two_lists : World :=
  {| heap := <[ 2%positive := [peer; newcomer] ]> {[ 1%positive := [newcomer; peer] ]};
     self := {| qualname := "TargetContext"; guild := Some the_guild;
                author := moderator; me := admin; _target := 1%positive |};
     created := []; scheduled := [] |}.

(** An embed constructor that takes keyword content only, as the
    platform's does: a positional argument is a [TypeError]. *)
Definition keyword_only (p : Payload) : Outcome Payload :=
  match args p with
  | [] => Return p
  | _ :: _ =>
      Raise (TypeError ("Embed.__init__() takes 1 positional argument but "
                        +:+ pretty (S (length (args p))) +:+ " were given"))
  end.

Definition titled : Payload := {| args := []; kwargs := [("title", "hi")] |}.

(** A delivery that succeeds, and one that the platform refuses. *)
Definition delivered (c : Coroutine) : Outcome Message := Return (Sent c).

Definition refused (c : Coroutine) : Outcome Message :=
  Raise (PlatformError "discord.errors.Forbidden").

End Examples.

(** ** The loop *)

Section Loop.

Variable g : Guild.
Variable p : Actor.

Lemma passes_member c : passes g p c = true → isinstance_Member c = true.
Proof. unfold passes. intros [H _]%andb_prop. exact H. Qed.

Lemma passes_not_blocks c : passes g p c = true → blocks g p c = false.
Proof. unfold passes. intros [_ H]%andb_prop. by apply negb_true_iff. Qed.

Lemma member_not_blocks_passes c :
  isinstance_Member c = true → blocks g p c = false → passes g p c = true.
Proof. unfold passes. intros -> ->. reflexivity. Qed.

(** One turn of the loop on a member that does not block goes on. *)
Lemma above_loop_pass c rest :
  isinstance_Member p = true → passes g p c = true →
  above_loop g p (c :: rest) = above_loop g p rest.
Proof.
  intros Hp Hc. pose proof (passes_not_blocks _ Hc) as Hb.
  apply passes_member in Hc.
  unfold blocks, outranks in Hb. apply orb_false_iff in Hb as [Ho Hr].
  destruct c as [|ic rc]; [discriminate|]. destruct p as [|ip rp]; [discriminate|].
  simpl in *. rewrite Ho, Hr. reflexivity.
Qed.

Lemma above_loop_skip pre rest :
  isinstance_Member p = true → Forall (λ c, passes g p c = true) pre →
  above_loop g p (pre ++ rest) = above_loop g p rest.
Proof.
  intros Hp. induction 1 as [|c pre Hc _ IH]; [reflexivity|].
  rewrite <- app_comm_cons, above_loop_pass by assumption. exact IH.
Qed.

(** The owner test comes first: no attribute of [c] is read. *)
Lemma above_loop_owner c rest :
  actor_eqb c (owner g) = true →
  above_loop g p (c :: rest) = Return (false, Some c).
Proof. intros H. simpl. rewrite H. reflexivity. Qed.

Lemma above_loop_outranks c rest :
  outranks c p = true →
  above_loop g p (c :: rest) = Return (false, Some c).
Proof.
  unfold outranks. intros H. simpl.
  destruct (actor_eqb c (owner g)); [reflexivity|].
  destruct (top_role c); [|discriminate]. destruct (top_role p); [|discriminate].
  rewrite H. reflexivity.
Qed.

Lemma above_loop_blocks c rest :
  blocks g p c = true → above_loop g p (c :: rest) = Return (false, Some c).
Proof.
  unfold blocks. intros [H|H]%orb_prop;
    [by apply above_loop_owner | by apply above_loop_outranks].
Qed.

Lemma above_loop_malformed c rest :
  isinstance_Member c = false → actor_eqb c (owner g) = false →
  above_loop g p (c :: rest) =
    Raise (TypeError
      ("Expected all users to be of type discord.Member instead encountered "
       +:+ type_repr c)).
Proof. intros Hc Ho. destruct c; [|discriminate]. simpl in *. rewrite Ho. reflexivity. Qed.

(** On guild members the loop is a search for the first blocking
    candidate. *)
Lemma above_loop_find cs :
  isinstance_Member p = true → Forall (λ c, isinstance_Member c = true) cs →
  above_loop g p cs =
    Return (match List.find (blocks g p) cs with
            | Some c => (false, Some c)
            | None => (true, None)
            end).
Proof.
  intros Hp. induction 1 as [|c cs Hc _ IH]; [reflexivity|].
  cbn [List.find]. destruct (blocks g p c) eqn:Hb.
  - by apply above_loop_blocks.
  - rewrite above_loop_pass; [exact IH | exact Hp | by apply member_not_blocks_passes].
Qed.

(** Nothing after a malformed candidate that is not the owner matters. *)
Lemma above_loop_cut pre c post :
  isinstance_Member c = false → actor_eqb c (owner g) = false →
  above_loop g p (pre ++ c :: post) = above_loop g p (pre ++ [c]).
Proof.
  intros Hc Ho. induction pre as [|x pre IH].
  - cbn [app]. by rewrite !above_loop_malformed.
  - cbn [app above_loop]. rewrite IH. reflexivity.
Qed.

End Loop.

(** ** Running the methods *)

Lemma find_split {A} (f : A → bool) (l : list A) (x : A) :
  List.find f l = Some x →
  ∃ pre post, l = pre ++ x :: post ∧ Forall (λ y, f y = false) pre ∧ f x = true.
Proof.
  induction l as [|y l IH]; [discriminate|]. cbn [List.find].
  destruct (f y) eqn:Hy.
  - intros [= ->]. exists [], l. by repeat split.
  - intros (pre & post & -> & Hpre & Hx)%IH. exists (y :: pre), post.
    repeat split; [|exact Hx]. by constructor.
Qed.

Lemma find_none {A} (f : A → bool) (l : list A) :
  List.find f l = None ↔ Forall (λ y, f y = false) l.
Proof.
  induction l as [|y l IH]; cbn [List.find].
  - split; [constructor | reflexivity].
  - destruct (f y) eqn:Hy.
    + split; [discriminate|]. intros H. inversion H; subst. congruence.
    + rewrite IH. split; [by constructor | intros H; by inversion H].
Qed.

Lemma alloc_subseteq l w : heap w ⊆ heap (alloc l w).2.
Proof.
  unfold alloc. cbn. apply insert_subseteq, not_elem_of_dom, is_fresh.
Qed.

(** In a guild, for a privileged actor that is not the owner,
    [_above_check] is the loop over the candidate sequence. *)
Lemma above_check_run w gd p users cs :
  guild (self w) = Some gd → actor_eqb p (owner gd) = false →
  candidates w users = Some cs →
  (_above_check p users w).1 = above_loop gd p cs.
Proof.
  intros Hg Hp Hcs. unfold _above_check, bind, get_self, targets, ret.
  rewrite Hg. cbn. rewrite Hp.
  destruct users as [[a|s]|]; cbn in *.
  - injection Hcs as <-. unfold deref. cbn. rewrite lookup_insert_eq. reflexivity.
  - unfold deref. rewrite Hcs. reflexivity.
  - unfold deref. rewrite Hcs. reflexivity.
Qed.

(** ** The return-value contract of [_above_check] *)

(** What a returned pair says: all candidates passed, or the first one
    that did not pass blocks. *)
Lemma above_loop_returned g p cs b a :
  isinstance_Member p = true →
  above_loop g p cs = Return (b, a) →
  (b = true ∧ a = None ∧ Forall (λ c, passes g p c = true) cs)
  ∨ (b = false
     ∧ ∃ pre c post, cs = pre ++ c :: post
         ∧ Forall (λ x, passes g p x = true) pre
         ∧ blocks g p c = true ∧ a = Some c).
Proof.
  intros Hp. induction cs as [|c cs IH].
  - intros [= <- <-]. left. by repeat split.
  - destruct (passes g p c) eqn:Hc.
    + rewrite above_loop_pass by assumption.
      intros [(-> & -> & Hall) | (-> & pre & x & post & -> & Hpre & Hx & ->)]%IH.
      * left. repeat split. by constructor.
      * right. split; [reflexivity|]. exists (c :: pre), x, post.
        repeat split; [by constructor | exact Hx].
    + destruct (blocks g p c) eqn:Hb.
      * rewrite above_loop_blocks by exact Hb. intros [= <- <-].
        right. split; [reflexivity|]. exists [], c, cs. by repeat split.
      * unfold passes in Hc. rewrite Hb, andb_true_r in Hc.
        unfold blocks in Hb. apply orb_false_iff in Hb as [Ho _].
        rewrite above_loop_malformed by assumption. discriminate.
Qed.

(** The loop ends with a pair or with the [TypeError]. *)
Lemma above_loop_pair_or_TypeError g p cs :
  (∃ b a, above_loop g p cs = Return (b, a))
  ∨ raises_TypeError (above_loop g p cs) = true.
Proof.
  induction cs as [|c cs IH]; cbn [above_loop]; [left; by eexists _, _|].
  destruct (actor_eqb c (owner g)); [left; by eexists _, _|].
  destruct (top_role c); [|by right]. destruct (top_role p); [|by right].
  destruct (_ >? _)%Z; [left; by eexists _, _ | exact IH].
Qed.

(** C1, as stated, fails: a lone candidate without role data that is not
    the owner makes [_above_check] raise the [TypeError]; no pair is
    returned. *)
Lemma lone_stranger_raises :
  guild (self Examples.no_targets) = Some Examples.the_guild
  ∧ isinstance_Member Examples.moderator = true
  ∧ actor_eqb Examples.moderator (owner Examples.the_guild) = false
  ∧ candidates Examples.no_targets (Some (Lone Examples.stranger))
    = Some [Examples.stranger]
  ∧ (_above_check Examples.moderator (Some (Lone Examples.stranger))
       Examples.no_targets).1
    = Raise (TypeError Examples.not_a_member_msg).
Proof. repeat split. Qed.

(** C1, amended.  In a guild, for a privileged guild member that is not the
    owner, [_above_check] returns a pair exactly when the first candidate
    that is not a non-blocking guild member, if there is one, blocks -- so
    whenever all candidates are guild members -- and raises the [TypeError]
    otherwise.  Whenever it returns [(b, a)]: [b] is true exactly when no
    candidate blocks; [a] is [None] when [b] is true and the first blocking
    candidate, in sequence order, when [b] is false.  An empty candidate
    sequence gives [(true, None)]. *)
Theorem above_check_contract w gd p users cs :
  guild (self w) = Some gd →
  isinstance_Member p = true →
  actor_eqb p (owner gd) = false →
  candidates w users = Some cs →
  ((∃ b a, (_above_check p users w).1 = Return (b, a))
   ↔ (∀ pre c post, cs = pre ++ c :: post →
        Forall (λ x, passes gd p x = true) pre →
        passes gd p c = false → blocks gd p c = true))
  ∧ ((∃ b a, (_above_check p users w).1 = Return (b, a))
     ∨ raises_TypeError (_above_check p users w).1 = true)
  ∧ (Forall (λ c, isinstance_Member c = true) cs →
     ∃ b a, (_above_check p users w).1 = Return (b, a))
  ∧ (∀ b a, (_above_check p users w).1 = Return (b, a) →
       (b = true ↔ Forall (λ c, blocks gd p c = false) cs)
       ∧ (b = true → a = None)
       ∧ (b = false →
          ∃ pre c post, cs = pre ++ c :: post
            ∧ Forall (λ x, blocks gd p x = false) pre
            ∧ blocks gd p c = true ∧ a = Some c))
  ∧ (cs = [] → (_above_check p users w).1 = Return (true, None)).
Proof.
  intros Hg Hp Hno Hcs.
  rewrite (above_check_run w gd p users cs Hg Hno Hcs).
  assert (Hreturns :
    (∀ pre c post, cs = pre ++ c :: post →
       Forall (λ x, passes gd p x = true) pre →
       passes gd p c = false → blocks gd p c = true) →
    ∃ b a, above_loop gd p cs = Return (b, a)).
  { intros Hcond.
    destruct (List.find (λ c, negb (passes gd p c)) cs) as [c|] eqn:Hfind.
    - destruct (find_split _ _ _ Hfind) as (pre & post & -> & Hpre & Hc).
      assert (Hpre' : Forall (λ x, passes gd p x = true) pre).
      { eapply Forall_impl; [exact Hpre|]. intros x. apply negb_false_iff. }
      apply negb_true_iff in Hc.
      exists false, (Some c). rewrite above_loop_skip by assumption.
      apply above_loop_blocks. by apply (Hcond pre c post).
    - exists true, None. apply find_none in Hfind.
      rewrite <- (app_nil_r cs). rewrite above_loop_skip; [reflexivity|exact Hp|].
      eapply Forall_impl; [exact Hfind|]. intros x. apply negb_false_iff. }
  split; [|split; [|split; [|split]]].
  - split; [|exact Hreturns].
    intros (b & a & Hrun) pre c post -> Hpre Hc.
    rewrite above_loop_skip in Hrun by assumption.
    destruct (blocks gd p c) eqn:Hb; [reflexivity|exfalso].
    unfold passes in Hc. rewrite Hb, andb_true_r in Hc.
    unfold blocks in Hb. apply orb_false_iff in Hb as [Ho _].
    rewrite above_loop_malformed in Hrun by assumption. discriminate.
  - apply above_loop_pair_or_TypeError.
  - intros Hall. apply Hreturns. intros pre c post -> _ Hc.
    apply Forall_app in Hall as [_ Hall]. inversion Hall as [|? ? Hm _]; subst.
    unfold passes in Hc. rewrite Hm in Hc. by apply negb_false_iff.
  - intros b a [(-> & -> & Hall) | (-> & pre & c & post & -> & Hpre & Hc & ->)]
      %above_loop_returned; [| |exact Hp].
    + split; [|split; [done|discriminate]]. split; [intros _|done].
      eapply Forall_impl; [exact Hall|]. intros x. apply passes_not_blocks.
    + split; [|split; [discriminate|]].
      * split; [discriminate|]. intros Hnone.
        apply Forall_app in Hnone as [_ Hnone].
        inversion Hnone; subst. congruence.
      * intros _. exists pre, c, post. repeat split; [|exact Hc].
        eapply Forall_impl; [exact Hpre|]. intros x. apply passes_not_blocks.
  - by intros ->.
Qed.

Lemma above_check_contract_witness :
  guild (self (Examples.guild_world [Examples.admin; Examples.stranger]))
    = Some Examples.the_guild
  ∧ isinstance_Member Examples.moderator = true
  ∧ actor_eqb Examples.moderator (owner Examples.the_guild) = false
  ∧ candidates (Examples.guild_world [Examples.admin; Examples.stranger]) None
    = Some [Examples.admin; Examples.stranger]
  ∧ ∃ pre c post,
      [Examples.admin; Examples.stranger] = pre ++ c :: post
      ∧ Forall (λ x, blocks Examples.the_guild Examples.moderator x = false) pre
      ∧ blocks Examples.the_guild Examples.moderator c = true
      ∧ Some Examples.admin = Some c.
Proof.
  repeat (split; [reflexivity|]).
  destruct (above_check_contract
              (Examples.guild_world [Examples.admin; Examples.stranger])
              Examples.the_guild Examples.moderator None
              [Examples.admin; Examples.stranger]
              eq_refl eq_refl eq_refl eq_refl)
    as (_ & _ & _ & Hpair & _).
  destruct (Hpair false (Some Examples.admin) eq_refl) as (_ & _ & Hfirst).
  exact (Hfirst eq_refl).
Defined.

(** The scenarios of the contract, run. *)
Example above_check_second_blocks :
  (_above_check Examples.moderator None
     (Examples.guild_world [Examples.newcomer; Examples.admin; Examples.newcomer])).1
  = Return (false, Some Examples.admin).
Proof. reflexivity. Qed.

Example above_check_empty :
  (_above_check Examples.moderator None (Examples.guild_world [])).1
  = Return (true, None).
Proof. reflexivity. Qed.

Example above_check_tie_passes :
  (_above_check Examples.moderator (Some (Lone (GuildMember 8 5)))
     (Examples.guild_world [])).1
  = Return (true, None).
Proof. reflexivity. Qed.

(** C2.  In a guild, when the privileged actor equals the guild owner,
    [_above_check] returns [(true, None)] whatever the candidate argument
    is: the test comes before the candidates are resolved or looked at. *)
Theorem owner_is_above_everyone w gd p users :
  guild (self w) = Some gd →
  actor_eqb p (owner gd) = true →
  _above_check p users w = (Return (true, None), w).
Proof.
  intros Hg Hp. unfold _above_check, bind, get_self, targets, ret.
  rewrite Hg. cbn. rewrite Hp. reflexivity.
Qed.

Lemma owner_is_above_everyone_witness :
  guild (self Examples.malformed_before_owner) = Some Examples.the_guild
  ∧ actor_eqb Examples.the_owner (owner Examples.the_guild) = true
  ∧ _above_check Examples.the_owner (Some (Lone Examples.stranger))
      Examples.malformed_before_owner
    = (Return (true, None), Examples.malformed_before_owner)
  ∧ _above_check Examples.the_owner None Examples.malformed_before_owner
    = (Return (true, None), Examples.malformed_before_owner).
Proof.
  split; [reflexivity|]. split; [reflexivity|].
  split;
    apply (owner_is_above_everyone Examples.malformed_before_owner Examples.the_guild);
    reflexivity.
Defined.

(** C3.  In a guild, for a privileged guild member that is not the owner, a
    candidate equal to the guild owner that the loop reaches (every
    candidate before it is a member that does not block) is returned as
    [(false, candidate)], whatever its kind and its rank: the owner test
    comes before the rank comparison. *)
Theorem owner_candidate_blocks w gd p users pre c post :
  guild (self w) = Some gd →
  isinstance_Member p = true →
  actor_eqb p (owner gd) = false →
  candidates w users = Some (pre ++ c :: post) →
  Forall (λ x, passes gd p x = true) pre →
  actor_eqb c (owner gd) = true →
  (_above_check p users w).1 = Return (false, Some c).
Proof.
  intros Hg Hp Hno Hcs Hpre Hc.
  rewrite (above_check_run w gd p users _ Hg Hno Hcs).
  rewrite above_loop_skip by assumption.
  by apply above_loop_owner.
Qed.

Lemma owner_candidate_blocks_witness :
  guild (self Examples.owner_in_the_middle) = Some Examples.the_guild
  ∧ outranks Examples.the_owner Examples.moderator = false
  ∧ (_above_check Examples.moderator None Examples.owner_in_the_middle).1
    = Return (false, Some Examples.the_owner).
Proof.
  split; [reflexivity|]. split; [reflexivity|].
  apply (owner_candidate_blocks Examples.owner_in_the_middle Examples.the_guild
           Examples.moderator None
           [Examples.newcomer] Examples.the_owner [Examples.admin]);
    try reflexivity.
  by repeat constructor.
Defined.

(** ** Actors without role data *)

Lemma is_author_above_run w users :
  isinstance_Member (author (self w)) = true →
  is_author_above users w = _above_check (author (self w)) users w.
Proof. intros H. unfold is_author_above, bind, get_self. rewrite H. reflexivity. Qed.

Lemma is_bot_above_run w users :
  isinstance_Member (me (self w)) = true →
  is_bot_above users w = _above_check (me (self w)) users w.
Proof. intros H. unfold is_bot_above, bind, get_self. rewrite H. reflexivity. Qed.

(** A candidate without role data that the loop reaches and that is not the
    owner stops [_above_check] with a [TypeError] naming its type. *)
Lemma above_check_malformed w gd p users pre c post :
  guild (self w) = Some gd →
  isinstance_Member p = true →
  actor_eqb p (owner gd) = false →
  candidates w users = Some (pre ++ c :: post) →
  Forall (λ x, passes gd p x = true) pre →
  isinstance_Member c = false →
  actor_eqb c (owner gd) = false →
  (_above_check p users w).1 =
    Raise (TypeError
      ("Expected all users to be of type discord.Member instead encountered "
       +:+ type_repr c)).
Proof.
  intros Hg Hp Hno Hcs Hpre Hc Hco.
  rewrite (above_check_run w gd p users _ Hg Hno Hcs).
  rewrite above_loop_skip by assumption.
  by apply above_loop_malformed.
Qed.

(** C4, as stated, fails: a candidate without role data whose identity is
    the owner's is reached by the loop and returned as the blocking
    candidate; no [TypeError] is raised. *)
Lemma owner_as_user_is_returned :
  isinstance_Member Examples.owner_as_user = false
  ∧ candidates Examples.no_targets (Some (Lone Examples.owner_as_user))
    = Some [Examples.owner_as_user]
  ∧ (is_author_above (Some (Lone Examples.owner_as_user)) Examples.no_targets).1
    = Return (false, Some Examples.owner_as_user)
  ∧ raises_TypeError
      (is_author_above (Some (Lone Examples.owner_as_user)) Examples.no_targets).1
    = false
  ∧ (is_bot_above (Some (Lone Examples.owner_as_user)) Examples.no_targets).1
    = Return (false, Some Examples.owner_as_user)
  ∧ raises_TypeError
      (is_bot_above (Some (Lone Examples.owner_as_user)) Examples.no_targets).1
    = false.
Proof. repeat split. Qed.

(** C4, amended.  For an actor [A] without role data: [is_author_above]
    raises a [TypeError] naming [A]'s type when [A] is the author, and so
    does [is_bot_above] when [A] is the bot's identity; and when [A] is a
    candidate that the loop reaches and that is not equal to the guild owner,
    both raise a [TypeError] naming [A]'s type. *)
Theorem non_member_raises_TypeError A :
  isinstance_Member A = false →
  (∀ w users, author (self w) = A →
     is_author_above users w =
       (Raise (TypeError ("Message author is of type " +:+ type_repr A
                          +:+ ", expected discord.Member instance.")), w))
  ∧ (∀ w users, me (self w) = A →
     is_bot_above users w =
       (Raise (TypeError (qualname (self w) +:+ ".me is of type " +:+ type_repr A
                          +:+ ", expected discord.Member instance.")), w))
  ∧ (∀ w gd users pre post,
       guild (self w) = Some gd →
       candidates w users = Some (pre ++ A :: post) →
       actor_eqb A (owner gd) = false →
       let raised : Outcome (bool * option Actor) :=
         Raise (TypeError
           ("Expected all users to be of type discord.Member instead encountered "
            +:+ type_repr A)) in
       (isinstance_Member (author (self w)) = true →
        actor_eqb (author (self w)) (owner gd) = false →
        Forall (λ x, passes gd (author (self w)) x = true) pre →
        (is_author_above users w).1 = raised)
       ∧ (isinstance_Member (me (self w)) = true →
          actor_eqb (me (self w)) (owner gd) = false →
          Forall (λ x, passes gd (me (self w)) x = true) pre →
          (is_bot_above users w).1 = raised)).
Proof.
  intros HA. split; [|split].
  - intros w users <-. unfold is_author_above, bind, get_self, raise.
    rewrite HA. reflexivity.
  - intros w users <-. unfold is_bot_above, bind, get_self, raise.
    rewrite HA. reflexivity.
  - intros w gd users pre post Hg Hcs Hno raised. split; intros Hp Hpo Hpre.
    + rewrite is_author_above_run by assumption.
      by apply (above_check_malformed w gd _ users pre A post).
    + rewrite is_bot_above_run by assumption.
      by apply (above_check_malformed w gd _ users pre A post).
Qed.

Lemma non_member_raises_TypeError_witness :
  isinstance_Member Examples.stranger = false
  ∧ is_author_above None Examples.dm_world =
      (Raise (TypeError "Message author is of type <class 'discord.user.User'>, expected discord.Member instance."),
       Examples.dm_world)
  ∧ (is_author_above None Examples.malformed_before_owner).1 =
      Raise (TypeError Examples.not_a_member_msg)
  ∧ (is_bot_above None Examples.malformed_before_owner).1 =
      Raise (TypeError Examples.not_a_member_msg).
Proof.
  destruct (non_member_raises_TypeError Examples.stranger eq_refl)
    as (Hauthor & _ & Hcand).
  split; [reflexivity|]. split; [apply Hauthor; reflexivity|].
  destruct (Hcand Examples.malformed_before_owner Examples.the_guild None
              [Examples.newcomer] [Examples.the_owner])
    as [Ha Hb]; try reflexivity.
  split; [apply Ha | apply Hb]; try reflexivity; by repeat constructor.
Defined.

(** C5, as stated, fails: a member that outranks the privileged actor and
    comes before the malformed candidate is returned; no [TypeError] is
    raised although a malformed candidate precedes an owner candidate. *)
Lemma earlier_blocker_wins :
  candidates Examples.blocker_before_malformed None
    = Some [Examples.admin; Examples.stranger; Examples.the_owner]
  ∧ isinstance_Member Examples.moderator = true
  ∧ actor_eqb Examples.moderator (owner Examples.the_guild) = false
  ∧ isinstance_Member Examples.stranger = false
  ∧ actor_eqb Examples.the_owner (owner Examples.the_guild) = true
  ∧ (_above_check Examples.moderator None Examples.blocker_before_malformed).1
    = Return (false, Some Examples.admin)
  ∧ raises_TypeError
      (_above_check Examples.moderator None Examples.blocker_before_malformed).1
    = false.
Proof. repeat split. Qed.

(** C5, amended.  In a guild, for a privileged guild member that is not the
    owner and a malformed candidate [c] that is not itself equal to the owner:
    if every candidate before [c] is a member that does not block,
    [_above_check] raises a [TypeError] naming [c]'s type, whatever follows
    [c] (owner candidates included); and in every case the outcome is the
    one of the sequence cut after [c], so that no candidate after [c] is
    ever returned. *)
Theorem malformed_candidate_stops_the_loop w gd p users pre c post :
  guild (self w) = Some gd →
  isinstance_Member p = true →
  actor_eqb p (owner gd) = false →
  candidates w users = Some (pre ++ c :: post) →
  isinstance_Member c = false →
  actor_eqb c (owner gd) = false →
  (Forall (λ x, passes gd p x = true) pre →
   (_above_check p users w).1 =
     Raise (TypeError
       ("Expected all users to be of type discord.Member instead encountered "
        +:+ type_repr c)))
  ∧ (∀ users', candidates w users' = Some (pre ++ [c]) →
       (_above_check p users w).1 = (_above_check p users' w).1).
Proof.
  intros Hg Hp Hno Hcs Hc Hco. split.
  - intros Hpre. by apply (above_check_malformed w gd p users pre c post).
  - intros users' Hcs'.
    rewrite (above_check_run w gd p users _ Hg Hno Hcs).
    rewrite (above_check_run w gd p users' _ Hg Hno Hcs').
    by apply above_loop_cut.
Qed.

Lemma malformed_candidate_stops_the_loop_witness :
  candidates Examples.malformed_before_owner None
    = Some [Examples.newcomer; Examples.stranger; Examples.the_owner]
  ∧ isinstance_Member Examples.stranger = false
  ∧ actor_eqb Examples.stranger (owner Examples.the_guild) = false
  ∧ (_above_check Examples.moderator None Examples.malformed_before_owner).1 =
      Raise (TypeError Examples.not_a_member_msg).
Proof.
  repeat (split; [reflexivity|]).
  apply (malformed_candidate_stops_the_loop Examples.malformed_before_owner
           Examples.the_guild Examples.moderator
           None [Examples.newcomer] Examples.stranger [Examples.the_owner]);
    try reflexivity.
  by repeat constructor.
Defined.

(** ** Outside a guild *)

(** C6, as stated, fails: in a direct-message context the author and the bot
    are plain users, and [is_author_above] and [is_bot_above] raise
    [TypeError], not [ValueError]. *)
Lemma no_guild_TypeError_first :
  guild (self Examples.dm_world) = None
  ∧ is_author_above None Examples.dm_world =
      (Raise (TypeError "Message author is of type <class 'discord.user.User'>, expected discord.Member instance."),
       Examples.dm_world)
  ∧ raises_ValueError (is_author_above None Examples.dm_world).1 = false
  ∧ is_bot_above None Examples.dm_world =
      (Raise (TypeError "TargetContext.me is of type <class 'discord.user.ClientUser'>, expected discord.Member instance."),
       Examples.dm_world)
  ∧ raises_ValueError (is_bot_above None Examples.dm_world).1 = false.
Proof. repeat split. Qed.

(** C6, amended.  When the guild is [None]: every call of [_above_check]
    raises [ValueError] before anything else and leaves the world as it was;
    [is_author_above] does so when the author is a guild member, and
    [is_bot_above] when the bot's identity is one; when it is not, they raise
    [TypeError] instead. *)
Theorem no_guild_raises w :
  guild (self w) = None →
  let no_guild : Exn :=
    ValueError ("Expected discord.Guild instance at " +:+ qualname (self w)
                +:+ ".guild instead got None") in
  (∀ p users, _above_check p users w = (Raise no_guild, w))
  ∧ (∀ users, isinstance_Member (author (self w)) = true →
       is_author_above users w = (Raise no_guild, w))
  ∧ (∀ users, isinstance_Member (me (self w)) = true →
       is_bot_above users w = (Raise no_guild, w))
  ∧ (∀ users, isinstance_Member (author (self w)) = false →
       ∃ msg, is_author_above users w = (Raise (TypeError msg), w))
  ∧ (∀ users, isinstance_Member (me (self w)) = false →
       ∃ msg, is_bot_above users w = (Raise (TypeError msg), w)).
Proof.
  intros Hg no_guild.
  assert (Hcheck : ∀ p users, _above_check p users w = (Raise no_guild, w)).
  { intros p users. unfold _above_check, bind, get_self, raise. rewrite Hg.
    reflexivity. }
  split; [exact Hcheck|]. split; [|split; [|split]].
  - intros users H. rewrite is_author_above_run by exact H. apply Hcheck.
  - intros users H. rewrite is_bot_above_run by exact H. apply Hcheck.
  - intros users H. unfold is_author_above, bind, get_self, raise. rewrite H.
    eexists. reflexivity.
  - intros users H. unfold is_bot_above, bind, get_self, raise. rewrite H.
    eexists. reflexivity.
Qed.

Lemma no_guild_raises_witness :
  guild (self Examples.guildless_world) = None
  ∧ _above_check Examples.stranger (Some (Lone Examples.stranger))
      Examples.guildless_world
    = (Raise (ValueError Examples.no_guild_msg), Examples.guildless_world)
  ∧ is_author_above None Examples.guildless_world
    = (Raise (ValueError Examples.no_guild_msg), Examples.guildless_world)
  ∧ is_bot_above None Examples.guildless_world
    = (Raise (ValueError Examples.no_guild_msg), Examples.guildless_world).
Proof.
  destruct (no_guild_raises Examples.guildless_world eq_refl)
    as (Hcheck & Hauthor & Hbot & _).
  split; [reflexivity|]. split; [apply Hcheck|].
  split; [apply Hauthor | apply Hbot]; reflexivity.
Defined.

(** ** Whisper *)

Lemma whisper_loop_run l p w :
  whisper_loop l p w =
    (Return tt,
     {| heap := heap w; self := self w;
        created := created w ++ map (λ a, DirectMessage a p) l;
        scheduled := scheduled w |}).
Proof.
  revert w. induction l as [|a l IH]; intros w.
  - destruct w. cbn. by rewrite app_nil_r.
  - cbn [whisper_loop]. unfold bind, send. rewrite IH. cbn.
    by rewrite <- app_assoc.
Qed.

(** What [whisper] does: one coroutine object per resolved actor, in
    sequence order, none of them handed to the event loop. *)
Lemma whisper_run w users p cs :
  candidates w users = Some cs →
  (whisper users p w).1 = Return tt
  ∧ created (whisper users p w).2 = created w ++ map (λ a, DirectMessage a p) cs
  ∧ scheduled (whisper users p w).2 = scheduled w.
Proof.
  intros Hcs. unfold whisper, bind, targets, get_self, ret.
  destruct users as [[a|s]|]; cbn in *.
  - injection Hcs as <-. unfold deref. cbn. rewrite lookup_insert_eq.
    rewrite whisper_loop_run. by cbn.
  - unfold deref. rewrite Hcs, whisper_loop_run. by cbn.
  - unfold deref. rewrite Hcs, whisper_loop_run. by cbn.
Qed.

Lemma whisper_never_schedules w users p :
  scheduled (whisper users p w).2 = scheduled w.
Proof.
  unfold whisper, bind, targets, get_self, ret.
  destruct users as [[a|s]|]; cbn.
  - unfold deref. cbn. rewrite lookup_insert_eq, whisper_loop_run. by cbn.
  - unfold deref. destruct (heap w !! s); [|reflexivity].
    rewrite whisper_loop_run. by cbn.
  - unfold deref. destruct (heap w !! _target (self w)); [|reflexivity].
    rewrite whisper_loop_run. by cbn.
Qed.

(** C7.  [whisper] on two targets returns [None] after creating one send
    coroutine per target, and hands none of them to the event loop: no
    direct message is dispatched. *)
Theorem whisper_dispatches_nothing :
  (whisper None Examples.hello Examples.second_blocks).1 = Return tt
  ∧ created (whisper None Examples.hello Examples.second_blocks).2
    = [DirectMessage Examples.newcomer Examples.hello;
       DirectMessage Examples.admin Examples.hello]
  ∧ scheduled (whisper None Examples.hello Examples.second_blocks).2 = [].
Proof. repeat split. Qed.

(** ** The TargetSet *)

(** C8.  Setting [targets] to a lone actor [a] and reading it gives a new
    one-element list [[a]]; setting it to a sequence [s] and reading it
    gives [s] itself, the same list object, no list being created or
    changed; and what was stored before plays no part. *)
Theorem targets_set_then_get w :
  (∀ a, ∃ s,
     let w' := (set_targets (Lone a) w).2 in
     (set_targets (Lone a) w).1 = Return tt
     ∧ targets w' = (Return s, w')
     ∧ heap w' !! s = Some [a]
     ∧ heap w !! s = None
     ∧ heap w ⊆ heap w')
  ∧ (∀ s,
       let w' := (set_targets (Sequence s) w).2 in
       (set_targets (Sequence s) w).1 = Return tt
       ∧ targets w' = (Return s, w')
       ∧ heap w' = heap w
       ∧ stored_targets w' = heap w !! s)
  ∧ (∀ v s0, set_targets v (set_target s0 w) = set_targets v w).
Proof.
  split; [|split].
  - intros a. exists (fresh (dom (heap w))). cbn.
    split; [reflexivity|]. split; [reflexivity|].
    split; [apply lookup_insert_eq|].
    split; [apply not_elem_of_dom, is_fresh|].
    apply insert_subseteq, not_elem_of_dom, is_fresh.
  - intros s. cbn. by repeat split.
  - intros [a|s] s0; reflexivity.
Qed.

Example targets_set_sequence_unchanged :
  stored_targets
    (set_targets (Sequence 1%positive)
       (set_targets (Lone Examples.stranger)
          (Examples.guild_world [Examples.admin; Examples.newcomer; Examples.admin])).2).2
  = Some [Examples.admin; Examples.newcomer; Examples.admin].
Proof. reflexivity. Qed.

Lemma contains_spec l x :
  contains l x = true ↔ ∃ t, t ∈ l ∧ actor_eqb t x = true.
Proof.
  unfold contains. rewrite existsb_exists.
  split; intros (t & Ht & Heq); exists t; split; try done; by apply list_elem_of_In.
Qed.

(** C9.  With the TargetSet [ts], [is_author_target] is
    [is_user_target] of the author; both return, without raising and
    without changing anything, a boolean that is true exactly when some
    element of [ts] equals the queried actor. *)
Theorem target_membership w ts :
  stored_targets w = Some ts →
  is_author_target w = is_user_target (author (self w)) w
  ∧ (∃ b, is_author_target w = (Return b, w)
          ∧ (b = true ↔ ∃ t, t ∈ ts ∧ actor_eqb t (author (self w)) = true))
  ∧ (∀ u, ∃ b, is_user_target u w = (Return b, w)
               ∧ (b = true ↔ ∃ t, t ∈ ts ∧ actor_eqb t u = true)).
Proof.
  unfold stored_targets. intros Hts.
  assert (Huser : ∀ u, is_user_target u w = (Return (contains ts u), w)).
  { intros u. unfold is_user_target, bind, targets, get_self, ret, deref. cbn.
    rewrite Hts. reflexivity. }
  assert (Hauthor : is_author_target w = (Return (contains ts (author (self w))), w)).
  { unfold is_author_target, bind, targets, get_self, ret, deref. cbn.
    rewrite Hts. reflexivity. }
  split; [by rewrite Hauthor, Huser|]. split.
  - eexists. split; [exact Hauthor | apply contains_spec].
  - intros u. eexists. split; [apply Huser | apply contains_spec].
Qed.

Lemma target_membership_witness :
  stored_targets Examples.author_among_targets
    = Some [Examples.admin; Examples.moderator]
  ∧ is_author_target Examples.author_among_targets
    = is_user_target (author (self Examples.author_among_targets))
        Examples.author_among_targets.
Proof.
  split; [reflexivity|].
  apply (target_membership Examples.author_among_targets
           [Examples.admin; Examples.moderator] eq_refl).
Defined.

Example author_is_target :
  is_author_target (Examples.guild_world [Examples.admin; Examples.moderator])
  = (Return true, Examples.guild_world [Examples.admin; Examples.moderator]).
Proof. reflexivity. Qed.

Example user_is_not_target :
  (is_user_target Examples.newcomer
     (Examples.guild_world [Examples.admin; Examples.moderator])).1
  = Return false.
Proof. reflexivity. Qed.

(** ** Frame *)

Lemma targets_preserved_refl w : targets_preserved w w.
Proof. by repeat split. Qed.

Lemma preserved_refl w : preserved w w.
Proof. split; [apply targets_preserved_refl | by split]. Qed.

Lemma targets_preserved_alloc l w : targets_preserved w (alloc l w).2.
Proof.
  split; [reflexivity|]. split; [apply alloc_subseteq|].
  unfold stored_targets, alloc. cbn. intros Hsome.
  apply lookup_insert_ne. intros Heq.
  apply (is_fresh (dom (heap w))). rewrite Heq. by apply elem_of_dom.
Qed.

Lemma preserved_alloc l w : preserved w (alloc l w).2.
Proof. split; [apply targets_preserved_alloc | by split]. Qed.

Lemma above_check_preserved w p users : preserved w (_above_check p users w).2.
Proof.
  unfold _above_check, bind, get_self, targets, ret, raise.
  destruct (guild (self w)) as [gd|]; cbn; [|apply preserved_refl].
  destruct (actor_eqb p (owner gd)); cbn; [apply preserved_refl|].
  destruct users as [[a|s]|]; cbn.
  - unfold deref. cbn. rewrite lookup_insert_eq. cbn. apply (preserved_alloc [a] w).
  - unfold deref. destruct (heap w !! s); apply preserved_refl.
  - unfold deref. destruct (heap w !! _target (self w)); apply preserved_refl.
Qed.

Lemma above_check_unchanged w p users :
  (∀ a, users ≠ Some (Lone a)) → (_above_check p users w).2 = w.
Proof.
  intros Hnot. unfold _above_check, bind, get_self, targets, ret, raise.
  destruct (guild (self w)) as [gd|]; cbn; [|reflexivity].
  destruct (actor_eqb p (owner gd)); cbn; [reflexivity|].
  destruct users as [[a|s]|]; cbn.
  - by destruct (Hnot a).
  - unfold deref. by destruct (heap w !! s).
  - unfold deref. by destruct (heap w !! _target (self w)).
Qed.

Lemma is_author_above_state w users :
  (is_author_above users w).2 = w
  ∨ (is_author_above users w).2 = (_above_check (author (self w)) users w).2.
Proof.
  unfold is_author_above, bind, get_self, raise.
  destruct (isinstance_Member (author (self w))); [by right | by left].
Qed.

Lemma is_bot_above_state w users :
  (is_bot_above users w).2 = w
  ∨ (is_bot_above users w).2 = (_above_check (me (self w)) users w).2.
Proof.
  unfold is_bot_above, bind, get_self, raise.
  destruct (isinstance_Member (me (self w))); [by right | by left].
Qed.

Lemma targets_preserved_same w w1 w2 :
  targets_preserved w w1 → self w2 = self w1 → heap w2 = heap w1 →
  targets_preserved w w2.
Proof.
  unfold targets_preserved, stored_targets.
  intros (Hs & Hh & Ht) -> ->. by repeat split.
Qed.

Lemma send_embed_targets_preserved w Embed deliver p :
  targets_preserved w (send_embed Embed deliver p w).2.
Proof.
  unfold send_embed, bind, lift, ctx_send, await.
  destruct (Embed p); [|apply targets_preserved_refl].
  by apply (targets_preserved_same w w); [apply targets_preserved_refl | |].
Qed.

Lemma whisper_targets_preserved w users p :
  targets_preserved w (whisper users p w).2.
Proof.
  unfold whisper, bind, targets, get_self, ret.
  destruct users as [[a|s]|]; cbn.
  - unfold deref. cbn. rewrite lookup_insert_eq, whisper_loop_run.
    by apply (targets_preserved_same w (alloc [a] w).2);
      [apply targets_preserved_alloc | |].
  - unfold deref. destruct (heap w !! s); [|apply targets_preserved_refl].
    rewrite whisper_loop_run.
    by apply (targets_preserved_same w w); [apply targets_preserved_refl | |].
  - unfold deref. destruct (heap w !! _target (self w)); [|apply targets_preserved_refl].
    rewrite whisper_loop_run.
    by apply (targets_preserved_same w w); [apply targets_preserved_refl | |].
Qed.

(** C10.  [is_author_target], [is_user_target], [_above_check],
    [is_author_above] and [is_bot_above] leave the context object, the
    existing lists, the stored TargetSet and the coroutines as they were,
    whether they return or raise; unless a lone actor is passed, for which a
    temporary list is created, the world is the same.  [whisper] and
    [send_embed] do not touch the TargetSet either. *)
Theorem read_only_operations w :
  (is_author_target w).2 = w
  ∧ (∀ u, (is_user_target u w).2 = w)
  ∧ (∀ p users, preserved w (_above_check p users w).2)
  ∧ (∀ users, preserved w (is_author_above users w).2)
  ∧ (∀ users, preserved w (is_bot_above users w).2)
  ∧ (∀ p, (_above_check p None w).2 = w ∧ (is_author_above None w).2 = w
          ∧ (is_bot_above None w).2 = w)
  ∧ (∀ p s, let users := Some (Sequence s) in
            (_above_check p users w).2 = w ∧ (is_author_above users w).2 = w
            ∧ (is_bot_above users w).2 = w)
  ∧ (∀ users p, targets_preserved w (whisper users p w).2)
  ∧ (∀ Embed deliver p, targets_preserved w (send_embed Embed deliver p w).2).
Proof.
  assert (Hauthor : ∀ users, preserved w (is_author_above users w).2).
  { intros users. destruct (is_author_above_state w users) as [-> | ->];
      [apply preserved_refl | apply above_check_preserved]. }
  assert (Hbot : ∀ users, preserved w (is_bot_above users w).2).
  { intros users. destruct (is_bot_above_state w users) as [-> | ->];
      [apply preserved_refl | apply above_check_preserved]. }
  assert (Hsame : ∀ p users, (∀ a, users ≠ Some (Lone a)) →
            (_above_check p users w).2 = w ∧ (is_author_above users w).2 = w
            ∧ (is_bot_above users w).2 = w).
  { intros p users Hnot. split; [by apply above_check_unchanged|]. split.
    - destruct (is_author_above_state w users) as [-> | ->];
        [done | by apply above_check_unchanged].
    - destruct (is_bot_above_state w users) as [-> | ->];
        [done | by apply above_check_unchanged]. }
  split; [|split].
  - unfold is_author_target, bind, targets, get_self, ret, deref. cbn.
    by destruct (heap w !! _target (self w)).
  - intros u. unfold is_user_target, bind, targets, get_self, ret, deref. cbn.
    by destruct (heap w !! _target (self w)).
  - split; [intros; apply above_check_preserved|].
    split; [exact Hauthor|]. split; [exact Hbot|].
    split; [intros p; by apply Hsame|].
    split; [intros p s; by apply Hsame|].
    split; [intros; apply whisper_targets_preserved|].
    intros Embed deliver p. apply send_embed_targets_preserved.
Qed.

(** Assignment to [targets] is what changes the TargetSet. *)
Example set_targets_changes_targets :
  stored_targets (Examples.guild_world [Examples.admin]) = Some [Examples.admin]
  ∧ stored_targets
      (set_targets (Lone Examples.newcomer) (Examples.guild_world [Examples.admin])).2
    = Some [Examples.newcomer].
Proof. by split. Qed.

(** ** Well-formed worlds *)

Lemma wf_init w mentions :
  is_Some (heap w !! mentions) → wf (init mentions w).2.
Proof. intros H. exact H. Qed.



(** ** More on the hierarchy check *)

(** In a guild, for a privileged actor that is not the owner, the outcome of
    [_above_check] is the loop's, whatever the candidates are. *)
Lemma above_check_outcome w gd p users :
  guild (self w) = Some gd → actor_eqb p (owner gd) = false →
  (_above_check p users w).1 =
    match candidates w users with
    | Some cs => above_loop gd p cs
    | None => Raise DanglingReference
    end.
Proof.
  intros Hg Hp. destruct (candidates w users) as [cs|] eqn:Hcs.
  - by apply above_check_run.
  - unfold _above_check, bind, get_self, targets, ret.
    rewrite Hg. cbn. rewrite Hp.
    destruct users as [[a|s]|]; cbn in *; [discriminate| |];
      unfold deref; by rewrite Hcs.
Qed.

Lemma above_loop_true_iff g p cs :
  isinstance_Member p = true →
  above_loop g p cs = Return (true, None)
  ↔ Forall (λ c, passes g p c = true) cs.
Proof.
  intros Hp. induction cs as [|c cs IH].
  - split; [constructor | reflexivity].
  - destruct (passes g p c) eqn:Hc.
    + rewrite above_loop_pass by assumption. rewrite IH.
      split; [by constructor | intros H; by inversion H].
    + split; [|intros H; inversion H; congruence].
      intros Hrun. exfalso. unfold passes in Hc.
      destruct (isinstance_Member c) eqn:Hm; cbn in Hc.
      * apply negb_false_iff in Hc. rewrite above_loop_blocks in Hrun by exact Hc.
        discriminate.
      * destruct (actor_eqb c (owner g)) eqn:Ho.
        -- rewrite above_loop_owner in Hrun by exact Ho. discriminate.
        -- rewrite above_loop_malformed in Hrun by assumption. discriminate.
Qed.

Lemma above_loop_same_rank g p p' cs :
  top_role p = top_role p' → above_loop g p cs = above_loop g p' cs.
Proof.
  intros Hr. induction cs as [|c cs IH]; [reflexivity|].
  cbn [above_loop]. rewrite Hr, IH. reflexivity.
Qed.

Lemma above_loop_shape g p cs b a :
  above_loop g p cs = Return (b, a) →
  (b = true ∧ a = None)
  ∨ (b = false ∧ ∃ c, a = Some c ∧ c ∈ cs ∧ blocks g p c = true).
Proof.
  induction cs as [|c cs IH]; cbn [above_loop].
  - intros [= <- <-]. by left.
  - destruct (actor_eqb c (owner g)) eqn:Ho.
    + intros [= <- <-]. right. split; [reflexivity|]. exists c.
      repeat split; [apply list_elem_of_here|]. unfold blocks. by rewrite Ho.
    + destruct (top_role c) as [rc|] eqn:Hrc; [|discriminate].
      destruct (top_role p) as [rp|] eqn:Hrp; [|discriminate].
      destruct (rc >? rp)%Z eqn:Hgt.
      * intros [= <- <-]. right. split; [reflexivity|]. exists c.
        repeat split; [apply list_elem_of_here|].
        unfold blocks, outranks. by rewrite Ho, Hrc, Hrp, Hgt.
      * intros [Htrue | (Hfalse & x & Ha & Hx & Hb)]%IH; [by left|].
        right. split; [exact Hfalse|]. exists x.
        repeat split; [exact Ha | by apply list_elem_of_further | exact Hb].
Qed.

Lemma above_loop_no_ValueError g p cs :
  raises_ValueError (above_loop g p cs) = false.
Proof.
  induction cs as [|c cs IH]; [reflexivity|]. cbn [above_loop].
  destruct (actor_eqb c (owner g)); [reflexivity|].
  destruct (top_role c); [|reflexivity]. destruct (top_role p); [|reflexivity].
  by destruct (_ >? _)%Z.
Qed.

Lemma passes_rank_le g p p' c r r' :
  top_role p = Some r → top_role p' = Some r' → (r ≤ r')%Z →
  passes g p c = true → passes g p' c = true.
Proof.
  unfold passes, blocks, outranks. intros -> -> Hle.
  destruct (isinstance_Member c); [cbn|done].
  destruct (actor_eqb c (owner g)); [done|cbn].
  destruct (top_role c) as [rc|]; [|done].
  rewrite !negb_true_iff, !Z.gtb_ltb, !Z.ltb_ge. lia.
Qed.

Lemma top_role_member p r : top_role p = Some r → isinstance_Member p = true.
Proof. by destruct p. Qed.

(** X1.  In a guild, for a privileged guild member that is not the owner,
    [_above_check] returns [(true, None)] exactly when every candidate is a
    guild member that is not the owner and does not outrank the privileged
    actor -- whatever the kinds of the candidates. *)
Theorem above_check_succeeds_iff w gd p users cs :
  guild (self w) = Some gd →
  isinstance_Member p = true →
  actor_eqb p (owner gd) = false →
  candidates w users = Some cs →
  (_above_check p users w).1 = Return (true, None)
  ↔ Forall (λ c, isinstance_Member c = true
                 ∧ actor_eqb c (owner gd) = false
                 ∧ outranks c p = false) cs.
Proof.
  intros Hg Hp Hno Hcs.
  rewrite (above_check_run w gd p users cs Hg Hno Hcs).
  rewrite above_loop_true_iff by exact Hp.
  apply Forall_iff. intros c. unfold passes, blocks.
  rewrite andb_true_iff, negb_true_iff, orb_false_iff. reflexivity.
Qed.

Lemma above_check_succeeds_iff_witness :
  candidates (Examples.guild_world [Examples.newcomer]) None
    = Some [Examples.newcomer]
  ∧ (_above_check Examples.moderator None
       (Examples.guild_world [Examples.newcomer])).1 = Return (true, None).
Proof.
  split; [reflexivity|].
  apply (above_check_succeeds_iff (Examples.guild_world [Examples.newcomer])
           Examples.the_guild Examples.moderator None [Examples.newcomer]);
    try reflexivity.
  by repeat constructor.
Defined.

(** X2.  Whether the privileged member is above all candidates does not
    depend on their order: two candidate sequences that are permutations of
    each other both give [(true, None)] or both do not. *)
Theorem above_check_success_order_free w gd p users users' cs cs' :
  guild (self w) = Some gd →
  isinstance_Member p = true →
  actor_eqb p (owner gd) = false →
  candidates w users = Some cs →
  candidates w users' = Some cs' →
  cs ≡ₚ cs' →
  (_above_check p users w).1 = Return (true, None)
  ↔ (_above_check p users' w).1 = Return (true, None).
Proof.
  intros Hg Hp Hno Hcs Hcs' Hperm.
  rewrite (above_check_run w gd p users cs Hg Hno Hcs).
  rewrite (above_check_run w gd p users' cs' Hg Hno Hcs').
  rewrite !above_loop_true_iff by exact Hp.
  by rewrite Hperm.
Qed.

Lemma above_check_success_order_free_witness :
  candidates Examples.two_lists None = Some [Examples.newcomer; Examples.peer]
  ∧ candidates Examples.two_lists (Some (Sequence 2%positive))
    = Some [Examples.peer; Examples.newcomer]
  ∧ ((_above_check Examples.moderator None Examples.two_lists).1
     = Return (true, None)
     ↔ (_above_check Examples.moderator (Some (Sequence 2%positive))
          Examples.two_lists).1
       = Return (true, None)).
Proof.
  split; [reflexivity|]. split; [reflexivity|].
  apply (above_check_success_order_free Examples.two_lists
           Examples.the_guild Examples.moderator
           None (Some (Sequence 2%positive))
           [Examples.newcomer; Examples.peer] [Examples.peer; Examples.newcomer]);
    try reflexivity.
  apply perm_swap.
Defined.

(** X3.  The check looks at the privileged actor's rank and at whether it is
    the owner, and at nothing else: two actors with the same [top_role],
    neither of them the owner, get the same result and leave the same
    world. *)
Theorem above_check_depends_on_rank_only w gd p p' users :
  guild (self w) = Some gd →
  actor_eqb p (owner gd) = false →
  actor_eqb p' (owner gd) = false →
  top_role p = top_role p' →
  _above_check p users w = _above_check p' users w.
Proof.
  intros Hg Hp Hp' Hr. unfold _above_check, bind, get_self, targets, ret.
  rewrite Hg. cbn. rewrite Hp, Hp'.
  destruct users as [[a|s]|]; cbn; unfold deref, lift; cbn.
  - rewrite lookup_insert_eq. by rewrite (above_loop_same_rank gd p p').
  - destruct (heap w !! s); [|reflexivity].
    by rewrite (above_loop_same_rank gd p p').
  - destruct (heap w !! _target (self w)); [|reflexivity].
    by rewrite (above_loop_same_rank gd p p').
Qed.

Lemma above_check_depends_on_rank_only_witness :
  top_role Examples.moderator = top_role Examples.peer
  ∧ _above_check Examples.moderator None Examples.second_blocks
    = _above_check Examples.peer None Examples.second_blocks.
Proof.
  split; [reflexivity|].
  apply (above_check_depends_on_rank_only Examples.second_blocks
           Examples.the_guild); reflexivity.
Defined.

(** X4.  The check is monotone in the privileged rank: when a member that
    is not the owner is above all candidates, so is every member of equal
    or higher rank that is not the owner. *)
Theorem higher_rank_stays_above w gd p p' users r r' :
  guild (self w) = Some gd →
  actor_eqb p (owner gd) = false →
  actor_eqb p' (owner gd) = false →
  top_role p = Some r →
  top_role p' = Some r' →
  (r ≤ r')%Z →
  (_above_check p users w).1 = Return (true, None) →
  (_above_check p' users w).1 = Return (true, None).
Proof.
  intros Hg Hp Hp' Hr Hr' Hle.
  rewrite !(above_check_outcome w gd) by assumption.
  destruct (candidates w users) as [cs|]; [|discriminate].
  rewrite !above_loop_true_iff by (eapply top_role_member; eassumption).
  intros Hall. eapply Forall_impl; [exact Hall|].
  intros c. by apply (passes_rank_le gd p p' c r r').
Qed.

Lemma higher_rank_stays_above_witness :
  top_role Examples.moderator = Some 5%Z
  ∧ top_role Examples.admin = Some 9%Z
  ∧ (_above_check Examples.moderator None Examples.two_lists).1
    = Return (true, None)
  ∧ (_above_check Examples.admin None Examples.two_lists).1
    = Return (true, None).
Proof.
  split; [reflexivity|]. split; [reflexivity|]. split; [reflexivity|].
  apply (higher_rank_stays_above Examples.two_lists Examples.the_guild
           Examples.moderator Examples.admin None 5 9);
    try reflexivity.
  lia.
Defined.

(** X5.  Being above is transitive: when a member [p] that is not the
    owner is above the lone candidate [q], and [q] is above all of some
    candidates, then [p] is above all of them. *)
Theorem above_is_transitive w gd p q users :
  guild (self w) = Some gd →
  isinstance_Member p = true →
  actor_eqb p (owner gd) = false →
  (_above_check p (Some (Lone q)) w).1 = Return (true, None) →
  (_above_check q users w).1 = Return (true, None) →
  (_above_check p users w).1 = Return (true, None).
Proof.
  intros Hg Hp Hno Hpq Hq.
  rewrite (above_check_outcome w gd p _ Hg Hno) in Hpq. cbn [candidates] in Hpq.
  apply above_loop_true_iff in Hpq; [|exact Hp].
  inversion Hpq as [|? ? Hpass _]; subst.
  pose proof (passes_member _ _ _ Hpass) as Hqm.
  pose proof (passes_not_blocks _ _ _ Hpass) as Hqb.
  unfold blocks in Hqb. apply orb_false_iff in Hqb as [Hqo Hqr].
  destruct p as [|ip rp]; [discriminate|]. destruct q as [|iq rq]; [discriminate|].
  unfold outranks in Hqr. cbn in Hqr.
  apply (higher_rank_stays_above w gd (GuildMember iq rq) (GuildMember ip rp)
           users rq rp); try done.
  rewrite Z.gtb_ltb, Z.ltb_ge in Hqr. exact Hqr.
Qed.

Lemma above_is_transitive_witness :
  (_above_check Examples.admin (Some (Lone Examples.moderator)) Examples.two_lists).1
    = Return (true, None)
  ∧ (_above_check Examples.moderator None Examples.two_lists).1
    = Return (true, None)
  ∧ (_above_check Examples.admin None Examples.two_lists).1
    = Return (true, None).
Proof.
  split; [reflexivity|]. split; [reflexivity|].
  apply (above_is_transitive Examples.two_lists Examples.the_guild
           Examples.admin Examples.moderator None);
    reflexivity.
Defined.

(** X6.  Whatever the arguments, a result of [_above_check] is either
    [(true, None)] or [(false, c)] for a [c] that is one of the candidates
    and does block; there is no [(false, None)] and no [(true, c)]. *)
Theorem above_check_result_shape w p users b a :
  (_above_check p users w).1 = Return (b, a) →
  (b = true ∧ a = None)
  ∨ (b = false
     ∧ ∃ gd cs c, guild (self w) = Some gd ∧ candidates w users = Some cs
                  ∧ a = Some c ∧ c ∈ cs ∧ blocks gd p c = true).
Proof.
  destruct (guild (self w)) as [gd|] eqn:Hg.
  - destruct (actor_eqb p (owner gd)) eqn:Hp.
    + unfold _above_check, bind, get_self, targets, ret. rewrite Hg. cbn.
      rewrite Hp. cbn. intros [= <- <-]. by left.
    + rewrite (above_check_outcome w gd p users Hg Hp).
      destruct (candidates w users) as [cs|]; [|discriminate].
      intros [Htrue | (Hfalse & c & Ha & Hc & Hb)]%above_loop_shape; [by left|].
      right. split; [exact Hfalse|]. by exists gd, cs, c.
  - unfold _above_check, bind, get_self, raise. rewrite Hg. discriminate.
Qed.

Lemma above_check_result_shape_witness :
  (_above_check Examples.moderator None Examples.second_blocks).1
    = Return (false, Some Examples.admin)
  ∧ ((false = true ∧ Some Examples.admin = None)
     ∨ (false = false
        ∧ ∃ gd cs c, guild (self Examples.second_blocks) = Some gd
                     ∧ candidates Examples.second_blocks None = Some cs
                     ∧ Some Examples.admin = Some c ∧ c ∈ cs
                     ∧ blocks gd Examples.moderator c = true)).
Proof.
  split; [reflexivity|].
  apply (above_check_result_shape Examples.second_blocks Examples.moderator None
           false (Some Examples.admin)).
  reflexivity.
Defined.

(** X7.  [_above_check] called with a privileged actor that has no role
    data and is not the owner: with no candidate it returns [(true, None)]
    all the same; a first candidate equal to the owner is returned as the
    blocker; any other first candidate, a proper guild member included,
    makes it raise the [TypeError], whose message then names the
    candidate's type. *)
Theorem above_check_privileged_without_rank w gd p users cs :
  guild (self w) = Some gd →
  isinstance_Member p = false →
  actor_eqb p (owner gd) = false →
  candidates w users = Some cs →
  (_above_check p users w).1 =
    match cs with
    | [] => Return (true, None)
    | c :: _ =>
        if actor_eqb c (owner gd) then Return (false, Some c)
        else Raise (TypeError
               ("Expected all users to be of type discord.Member instead encountered "
                +:+ type_repr c))
    end.
Proof.
  intros Hg Hp Hno Hcs.
  rewrite (above_check_run w gd p users cs Hg Hno Hcs).
  destruct cs as [|c cs]; [reflexivity|]. cbn [above_loop].
  destruct (actor_eqb c (owner gd)); [reflexivity|].
  destruct p; [|discriminate]. cbn. by destruct (top_role c).
Qed.

Lemma above_check_privileged_without_rank_witness :
  isinstance_Member Examples.stranger = false
  ∧ candidates Examples.second_blocks None
    = Some [Examples.newcomer; Examples.admin]
  ∧ (_above_check Examples.stranger None Examples.second_blocks).1
    = Raise (TypeError
        "Expected all users to be of type discord.Member instead encountered <class 'discord.member.Member'>")
  ∧ (_above_check Examples.stranger None Examples.no_targets).1
    = Return (true, None).
Proof.
  split; [reflexivity|]. split; [reflexivity|]. split.
  - apply (above_check_privileged_without_rank Examples.second_blocks
             Examples.the_guild Examples.stranger None
             [Examples.newcomer; Examples.admin]); reflexivity.
  - apply (above_check_privileged_without_rank Examples.no_targets
             Examples.the_guild Examples.stranger None []); reflexivity.
Defined.

(** X8.  [ValueError] means "no guild" and nothing else: [_above_check]
    raises it exactly when the guild is [None]; [is_author_above] exactly
    when the guild is [None] and the author is a guild member;
    [is_bot_above] exactly when the guild is [None] and the bot's identity
    is a guild member. *)
Theorem ValueError_iff_no_guild w :
  (∀ p users,
     raises_ValueError (_above_check p users w).1 = true
     ↔ guild (self w) = None)
  ∧ (∀ users,
       raises_ValueError (is_author_above users w).1 = true
       ↔ guild (self w) = None ∧ isinstance_Member (author (self w)) = true)
  ∧ (∀ users,
       raises_ValueError (is_bot_above users w).1 = true
       ↔ guild (self w) = None ∧ isinstance_Member (me (self w)) = true).
Proof.
  assert (Hcheck : ∀ p users,
            raises_ValueError (_above_check p users w).1 = true
            ↔ guild (self w) = None).
  { intros p users. destruct (guild (self w)) as [gd|] eqn:Hg.
    - split; [|discriminate]. destruct (actor_eqb p (owner gd)) eqn:Hp.
      + unfold _above_check, bind, get_self, targets, ret. rewrite Hg. cbn.
        rewrite Hp. discriminate.
      + rewrite (above_check_outcome w gd p users Hg Hp).
        destruct (candidates w users); [|discriminate].
        by rewrite above_loop_no_ValueError.
    - unfold _above_check, bind, get_self, raise. rewrite Hg. by split. }
  split; [exact Hcheck|]. split; intros users.
  - destruct (isinstance_Member (author (self w))) eqn:Hm.
    + rewrite is_author_above_run by exact Hm. rewrite Hcheck.
      split; [intros H; by split | by intros [H _]].
    + unfold is_author_above, bind, get_self, raise. rewrite Hm. cbn.
      split; [discriminate | by intros [_ H]].
  - destruct (isinstance_Member (me (self w))) eqn:Hm.
    + rewrite is_bot_above_run by exact Hm. rewrite Hcheck.
      split; [intros H; by split | by intros [H _]].
    + unfold is_bot_above, bind, get_self, raise. rewrite Hm. cbn.
      split; [discriminate | by intros [_ H]].
Qed.

(** ** More on targets, whisper and send_embed *)

(** X9.  [_maybe_sequence] never raises; the list it returns holds exactly
    the elements its argument denotes; it leaves the context object and
    every existing list as they were; a sequence is returned as it is, with
    nothing created; and normalising its result again gives the same list
    and changes nothing. *)
Theorem maybe_sequence_normalises v w :
  ∃ s,
    (_maybe_sequence v w).1 = Return s
    ∧ heap (_maybe_sequence v w).2 !! s = candidates w (Some v)
    ∧ targets_preserved w (_maybe_sequence v w).2
    ∧ (∀ s0, v = Sequence s0 → s = s0 ∧ (_maybe_sequence v w).2 = w)
    ∧ _maybe_sequence (Sequence s) (_maybe_sequence v w).2
      = (Return s, (_maybe_sequence v w).2).
Proof.
  destruct v as [a|s0].
  - exists (fresh (dom (heap w))). cbn.
    split; [reflexivity|]. split; [apply lookup_insert_eq|].
    split; [apply (targets_preserved_alloc [a] w)|].
    split; [discriminate | reflexivity].
  - exists s0. cbn. split; [reflexivity|]. split; [reflexivity|].
    split; [apply targets_preserved_refl|].
    split; [by intros ? [= ->] | reflexivity].
Qed.

(** X10.  [whisper] on the resolved sequence [cs] returns [None] after
    having called [send] once per element of [cs], in sequence order and
    with the given payload; it hands no coroutine to the event loop and
    leaves the context object, the lists and the TargetSet as they were. *)
Theorem whisper_calls_send_per_target w users p cs :
  candidates w users = Some cs →
  (whisper users p w).1 = Return tt
  ∧ created (whisper users p w).2
    = created w ++ map (λ a, DirectMessage a p) cs
  ∧ scheduled (whisper users p w).2 = scheduled w
  ∧ targets_preserved w (whisper users p w).2.
Proof.
  intros Hcs. destruct (whisper_run w users p cs Hcs) as (Hret & Hc & Hs).
  repeat split; try assumption; apply whisper_targets_preserved.
Qed.

Lemma whisper_calls_send_per_target_witness :
  candidates Examples.two_lists (Some (Sequence 2%positive))
    = Some [Examples.peer; Examples.newcomer]
  ∧ created (whisper (Some (Sequence 2%positive)) Examples.hello
               Examples.two_lists).2
    = [DirectMessage Examples.peer Examples.hello;
       DirectMessage Examples.newcomer Examples.hello].
Proof.
  split; [reflexivity|].
  apply (whisper_calls_send_per_target Examples.two_lists
           (Some (Sequence 2%positive)) Examples.hello
           [Examples.peer; Examples.newcomer]).
  reflexivity.
Defined.

(** X11.  Starting with every coroutine awaited, [whisper] ends with every
    coroutine awaited only when there was nobody to write to: with at least
    one resolved actor it leaves coroutines that were never awaited. *)
Theorem whisper_leaves_sends_pending w users p cs :
  candidates w users = Some cs →
  created w = scheduled w →
  created (whisper users p w).2 = scheduled (whisper users p w).2 ↔ cs = [].
Proof.
  intros Hcs Hall. destruct (whisper_run w users p cs Hcs) as (_ & -> & ->).
  rewrite <- Hall. split.
  - intros H. rewrite <- (app_nil_r (created w)) in H at 2.
    apply app_inv_head in H. by destruct cs.
  - intros ->. cbn. apply app_nil_r.
Qed.

Lemma whisper_leaves_sends_pending_witness :
  candidates Examples.second_blocks None
    = Some [Examples.newcomer; Examples.admin]
  ∧ created Examples.second_blocks = scheduled Examples.second_blocks
  ∧ created (whisper None Examples.hello Examples.second_blocks).2
    ≠ scheduled (whisper None Examples.hello Examples.second_blocks).2.
Proof.
  split; [reflexivity|]. split; [reflexivity|].
  intros Hall.
  apply (whisper_leaves_sends_pending Examples.second_blocks None Examples.hello
           [Examples.newcomer; Examples.admin] eq_refl eq_refl) in Hall.
  discriminate Hall.
Defined.

(** X12.  [send_embed] builds the embed first: when the constructor
    raises, that error is what [send_embed] raises, and no send is created
    and nothing changes.  When it returns the embed, exactly one channel
    send carrying that embed is created and awaited, and [send_embed]
    returns the message, or raises the error, that the delivery answers;
    the context object and the lists are untouched either way. *)
Theorem send_embed_outcome w Embed deliver p :
  (∀ e, Embed p = Raise e →
     send_embed Embed deliver p w = (Raise e, w))
  ∧ (∀ embed, Embed p = Return embed →
       (send_embed Embed deliver p w).1 = deliver (ChannelMessage embed)
       ∧ created (send_embed Embed deliver p w).2
         = created w ++ [ChannelMessage embed]
       ∧ scheduled (send_embed Embed deliver p w).2
         = scheduled w ++ [ChannelMessage embed]
       ∧ heap (send_embed Embed deliver p w).2 = heap w
       ∧ self (send_embed Embed deliver p w).2 = self w).
Proof.
  unfold send_embed, bind, lift, ctx_send, await. split.
  - by intros e ->.
  - by intros embed ->.
Qed.

Lemma send_embed_outcome_witness :
  Examples.keyword_only Examples.hello
    = Raise (TypeError "Embed.__init__() takes 1 positional argument but 2 were given")
  ∧ send_embed Examples.keyword_only Examples.delivered Examples.hello
      Examples.second_blocks
    = (Raise (TypeError "Embed.__init__() takes 1 positional argument but 2 were given"),
       Examples.second_blocks)
  ∧ Examples.keyword_only Examples.titled = Return Examples.titled
  ∧ (send_embed Examples.keyword_only Examples.refused Examples.titled
       Examples.second_blocks).1
    = Raise (PlatformError "discord.errors.Forbidden")
  ∧ (send_embed Examples.keyword_only Examples.delivered Examples.titled
       Examples.second_blocks).1
    = Return (Sent (ChannelMessage Examples.titled)).
Proof.
  split; [reflexivity|]. split.
  - apply (send_embed_outcome Examples.second_blocks Examples.keyword_only
             Examples.delivered Examples.hello). reflexivity.
  - split; [reflexivity|]. split.
    + destruct (send_embed_outcome Examples.second_blocks Examples.keyword_only
                  Examples.refused Examples.titled) as [_ Hsent].
      destruct (Hsent Examples.titled eq_refl) as [Hrun _]. exact Hrun.
    + destruct (send_embed_outcome Examples.second_blocks Examples.keyword_only
                  Examples.delivered Examples.titled) as [_ Hsent].
      destruct (Hsent Examples.titled eq_refl) as [Hrun _]. exact Hrun.
Defined.

(** X13.  After an assignment to [targets], membership is membership in
    what was assigned: [is_user_target] and [is_author_target] answer for
    the elements the assigned value denotes, and after assigning a lone
    actor that actor is a target. *)
Theorem set_targets_then_query w v cs :
  candidates w (Some v) = Some cs →
  (∀ u, (is_user_target u (set_targets v w).2).1 = Return (contains cs u))
  ∧ (is_author_target (set_targets v w).2).1
    = Return (contains cs (author (self w)))
  ∧ (∀ a, v = Lone a →
       (is_user_target a (set_targets v w).2).1 = Return true).
Proof.
  intros Hcs.
  assert (Hstored : stored_targets (set_targets v w).2 = Some cs).
  { destruct v as [a|s]; cbn in *.
    - injection Hcs as <-. unfold stored_targets. cbn. apply lookup_insert_eq.
    - exact Hcs. }
  assert (Huser : ∀ u,
            (is_user_target u (set_targets v w).2).1 = Return (contains cs u)).
  { intros u. unfold is_user_target, bind, targets, get_self, ret, deref.
    cbn. unfold stored_targets in Hstored. rewrite Hstored. reflexivity. }
  split; [exact Huser|]. split.
  - unfold is_author_target, bind, targets, get_self, ret, deref.
    cbn. unfold stored_targets in Hstored. rewrite Hstored. cbn.
    by destruct v.
  - intros a ->. rewrite Huser. injection Hcs as <-.
    cbn. unfold actor_eqb. by rewrite Z.eqb_refl.
Qed.

Lemma set_targets_then_query_witness :
  candidates Examples.second_blocks (Some (Lone Examples.stranger))
    = Some [Examples.stranger]
  ∧ (is_user_target Examples.stranger
       (set_targets (Lone Examples.stranger) Examples.second_blocks).2).1
    = Return true
  ∧ (is_user_target Examples.newcomer
       (set_targets (Lone Examples.stranger) Examples.second_blocks).2).1
    = Return false.
Proof.
  destruct (set_targets_then_query Examples.second_blocks
              (Lone Examples.stranger) [Examples.stranger] eq_refl)
    as (Huser & _ & Hlone).
  split; [reflexivity|]. split; [by apply Hlone | apply Huser].
Defined.

Lemma set_targets_then_above_check w v p :
  (_above_check p None (set_targets v w).2).1 = (_above_check p (Some v) w).1.
Proof.
  unfold _above_check, bind, get_self, targets, ret, raise.
  destruct v as [a|s]; cbn.
  - destruct (guild (self w)) as [gd|]; cbn; [|reflexivity].
    destruct (actor_eqb p (owner gd)); cbn; [reflexivity|].
    unfold deref. cbn. by rewrite lookup_insert_eq.
  - destruct (guild (self w)) as [gd|]; cbn; [|reflexivity].
    destruct (actor_eqb p (owner gd)); cbn; [reflexivity|].
    unfold deref. cbn. by destruct (heap w !! s).
Qed.

(** X14.  Assigning [v] to [targets] and then calling a check or [whisper]
    without the [users] argument gives the outcome of calling it with [v]
    on the context as it was: the same result or the same error, and for
    [whisper] the same coroutines. *)
Theorem set_targets_then_default w v :
  (∀ p, (_above_check p None (set_targets v w).2).1
        = (_above_check p (Some v) w).1)
  ∧ (is_author_above None (set_targets v w).2).1
    = (is_author_above (Some v) w).1
  ∧ (is_bot_above None (set_targets v w).2).1
    = (is_bot_above (Some v) w).1
  ∧ (∀ pl, (whisper None pl (set_targets v w).2).1 = (whisper (Some v) pl w).1
           ∧ created (whisper None pl (set_targets v w).2).2
             = created (whisper (Some v) pl w).2).
Proof.
  split; [apply set_targets_then_above_check|]. split; [|split].
  - pose proof (set_targets_then_above_check w v (author (self w))) as H.
    unfold is_author_above, bind, get_self, raise.
    destruct v as [a|s]; cbn in *;
      destruct (isinstance_Member (author (self w))); cbn; done.
  - pose proof (set_targets_then_above_check w v (me (self w))) as H.
    unfold is_bot_above, bind, get_self, raise.
    destruct v as [a|s]; cbn in *;
      destruct (isinstance_Member (me (self w))); cbn; done.
  - intros pl. unfold whisper, bind, targets, get_self, ret.
    destruct v as [a|s]; cbn; unfold deref; cbn.
    + rewrite lookup_insert_eq, !whisper_loop_run. by cbn.
    + destruct (heap w !! s); [|by cbn]. rewrite !whisper_loop_run. by cbn.
Qed.



(** X16.  After [__init__] the targets are the mentions: [targets] is the
    list object [message.mentions] itself, no list is created, whatever
    [_target] held before is forgotten, and the membership tests answer for
    the mentioned actors. *)
Theorem init_targets_are_mentions w mentions ms :
  heap w !! mentions = Some ms →
  (init mentions w).1 = Return tt
  ∧ targets (init mentions w).2 = (Return mentions, (init mentions w).2)
  ∧ heap (init mentions w).2 = heap w
  ∧ stored_targets (init mentions w).2 = Some ms
  ∧ (∀ s0, init mentions (set_target s0 w) = init mentions w)
  ∧ (∀ u, is_user_target u (init mentions w).2
          = (Return (contains ms u), (init mentions w).2))
  ∧ is_author_target (init mentions w).2
    = (Return (contains ms (author (self w))), (init mentions w).2).
Proof.
  intros Hms. split; [reflexivity|]. split; [reflexivity|].
  split; [reflexivity|]. split; [exact Hms|]. split; [reflexivity|]. split.
  - intros u. unfold is_user_target, bind, targets, get_self, ret, deref. cbn.
    by rewrite Hms.
  - unfold is_author_target, bind, targets, get_self, ret, deref. cbn.
    by rewrite Hms.
Qed.

Lemma init_targets_are_mentions_witness :
  heap Examples.two_lists !! 2%positive = Some [Examples.peer; Examples.newcomer]
  ∧ stored_targets (init 2%positive Examples.two_lists).2
    = Some [Examples.peer; Examples.newcomer]
  ∧ is_author_target (init 2%positive Examples.two_lists).2
    = (Return false, (init 2%positive Examples.two_lists).2).
Proof.
  destruct (init_targets_are_mentions Examples.two_lists 2%positive
              [Examples.peer; Examples.newcomer] eq_refl)
    as (_ & _ & _ & Hstored & _ & _ & Hauthor).
  split; [reflexivity|]. split; [exact Hstored | exact Hauthor].
Defined.

(** X17.  In a guild, for a privileged guild member that is not the owner,
    the first candidate that is not a non-blocking guild member decides:
    if it blocks (it equals the owner or outranks) the result is
    [(false, candidate)], otherwise it has no role data and the [TypeError]
    naming its type is raised; nothing after it is looked at. *)
Theorem above_check_first_failing_decides w gd p users pre c post :
  guild (self w) = Some gd →
  isinstance_Member p = true →
  actor_eqb p (owner gd) = false →
  candidates w users = Some (pre ++ c :: post) →
  Forall (λ x, passes gd p x = true) pre →
  passes gd p c = false →
  (_above_check p users w).1 =
    if blocks gd p c then Return (false, Some c)
    else Raise (TypeError
           ("Expected all users to be of type discord.Member instead encountered "
            +:+ type_repr c)).
Proof.
  intros Hg Hp Hno Hcs Hpre Hc.
  rewrite (above_check_run w gd p users _ Hg Hno Hcs).
  rewrite above_loop_skip by assumption.
  destruct (blocks gd p c) eqn:Hb.
  - by apply above_loop_blocks.
  - unfold passes in Hc. rewrite Hb in Hc. cbn in Hc.
    rewrite andb_true_r in Hc.
    unfold blocks in Hb. apply orb_false_iff in Hb as [Ho _].
    by apply above_loop_malformed.
Qed.

Lemma above_check_first_failing_decides_witness :
  candidates Examples.owner_in_the_middle None
    = Some [Examples.newcomer; Examples.the_owner; Examples.admin]
  ∧ passes Examples.the_guild Examples.moderator Examples.the_owner = false
  ∧ (_above_check Examples.moderator None Examples.owner_in_the_middle).1
    = Return (false, Some Examples.the_owner).
Proof.
  split; [reflexivity|]. split; [reflexivity|].
  apply (above_check_first_failing_decides Examples.owner_in_the_middle
           Examples.the_guild Examples.moderator None
           [Examples.newcomer] Examples.the_owner [Examples.admin]);
    try reflexivity.
  by repeat constructor.
Defined.
